(** * Persona ChatBot (main.py): persona transforms, prompt assembly and
    the submission cycle, embedded and verified.

    Python [str] values are modelled as [string]; the characters are the
    ASCII range of Python's code points, with [str.lower], [str.upper],
    [str.isspace] as Python defines them on that range.  Operations that
    can raise in Python ([t[0]], [d[key]], [random.choice], [str.format])
    return a [res], so that "never raises" is a statement about the value
    computed and not a property of the embedding. *)

From Stdlib Require Import String Ascii List Bool Arith ZArith Lia.
Import ListNotations.

Local Open Scope list_scope.
Local Open Scope string_scope.
Local Open Scope nat_scope.

(* ================================================================== *)
(** ** Python runtime: exceptions and results *)

Module Py.

Inductive exn : Type :=
| IndexError
| KeyError (key : string)
| ValueError.

Inductive res (A : Type) : Type :=
| Ok (a : A)
| Raise (e : exn).

Arguments Ok {A} a.
Arguments Raise {A} e.

Definition bind {A B : Type} (m : res A) (k : A -> res B) : res B :=
  match m with
  | Ok a => k a
  | Raise e => Raise e
  end.

Definition returns {A : Type} (m : res A) : Prop := exists a, m = Ok a.

(** A [for] loop whose body updates the loop state [s] and may raise. *)
Fixpoint for_each {A S : Type} (body : S -> A -> res S) (xs : list A) (s : S)
  : res S :=
  match xs with
  | [] => Ok s
  | x :: xs' =>
      match body s x with
      | Ok s' => for_each body xs' s'
      | Raise e => Raise e
      end
  end.

(** A [dict] with string keys, as the literal lists its items. *)
Definition dict : Type := list (string * string).

Fixpoint dict_get (d : dict) (k : string) : option string :=
  match d with
  | [] => None
  | (k', v) :: d' => if String.eqb k k' then Some v else dict_get d' k
  end.

(** [k in d] *)
Definition dict_contains (d : dict) (k : string) : bool :=
  match dict_get d k with Some _ => true | None => false end.

(** [d[k]]: raises KeyError on a missing key. *)
Definition dict_getitem (d : dict) (k : string) : res string :=
  match dict_get d k with
  | Some v => Ok v
  | None => Raise (KeyError k)
  end.

(** [random.choice(seq)]: raises IndexError on an empty sequence, and
    otherwise returns [seq[i]] for the index [i] below [len(seq)] that the
    generator produces; [r] is the generator's draw, reduced modulo the
    length. *)
Definition choice {A : Type} (seq : list A) (r : nat) : res A :=
  match seq with
  | [] => Raise IndexError
  | _ :: _ =>
      match nth_error seq (r mod List.length seq) with
      | Some x => Ok x
      | None => Raise IndexError
      end
  end.

(** [lst[start:]] for a Python integer [start]: a negative start counts
    from the end, and both directions are clamped to the list. *)
Definition slice_from_index {A : Type} (start : Z) (l : list A) : list A :=
  let n := Z.of_nat (List.length l) in
  let i := if (start <? 0)%Z then Z.max 0 (start + n) else Z.min start n in
  skipn (Z.to_nat i) l.

End Py.

Import Py.

Notation "x <- m ;; k" := (Py.bind m (fun x => k))
  (at level 61, m at next level, right associativity).

(* ================================================================== *)
(** ** Python [str] operations used by main.py *)

Module Str.

Definition code (c : ascii) : nat := nat_of_ascii c.

(** [c.isspace()] on ASCII: tab, LF, VT, FF, CR, the separators
    0x1c..0x1f and the space. *)
Definition isspace (c : ascii) : bool :=
  let n := code c in
  ((9 <=? n) && (n <=? 13)) || ((28 <=? n) && (n <=? 32)).

(** The capital and the small letters of ASCII.  [lower_char] and
    [upper_char] are [str.lower] and [str.upper] on ASCII characters;
    other characters are left as they are, where Python also maps the
    letters outside ASCII (and may return more than one character). *)
Definition isupper (c : ascii) : bool :=
  let n := code c in (65 <=? n) && (n <=? 90).

Definition islower (c : ascii) : bool :=
  let n := code c in (97 <=? n) && (n <=? 122).

Definition lower_char (c : ascii) : ascii :=
  if isupper c then ascii_of_nat (code c + 32) else c.

Definition upper_char (c : ascii) : ascii :=
  if islower c then ascii_of_nat (code c - 32) else c.

(** [s.lower()] *)
Fixpoint lower (s : string) : string :=
  match s with
  | EmptyString => EmptyString
  | String c s' => String (lower_char c) (lower s')
  end.

(** [c.upper()] for a one-character string [c] *)
Definition upper1 (c : ascii) : string := String (upper_char c) EmptyString.

(** [s[i]]: raises IndexError out of range. *)
Definition getitem (s : string) (i : nat) : res ascii :=
  match String.get i s with
  | Some c => Ok c
  | None => Raise IndexError
  end.

(** [s[:n]] *)
Fixpoint slice_to (n : nat) (s : string) : string :=
  match n, s with
  | S n', String c s' => String c (slice_to n' s')
  | _, _ => EmptyString
  end.

(** [s[n:]] *)
Fixpoint slice_from (n : nat) (s : string) : string :=
  match n, s with
  | S n', String _ s' => slice_from n' s'
  | _, _ => s
  end.

(** [s.startswith(p)] *)
Fixpoint startswith (p s : string) : bool :=
  match p, s with
  | EmptyString, _ => true
  | String a p', String b s' => Ascii.eqb a b && startswith p' s'
  | String _ _, EmptyString => false
  end.

(** [s.endswith(suf)] *)
Definition endswith (suf s : string) : bool :=
  let n := String.length s in
  let m := String.length suf in
  (m <=? n) && String.eqb (slice_from (n - m) s) suf.

(** [s.endswith((a, b, ...))] with a tuple of suffixes *)
Definition endswith_any (sufs : list string) (s : string) : bool :=
  existsb (fun suf => endswith suf s) sufs.

(** Removal of the leading characters satisfying [p]. *)
Fixpoint lstrip_by (p : ascii -> bool) (s : string) : string :=
  match s with
  | EmptyString => EmptyString
  | String c s' => if p c then lstrip_by p s' else s
  end.

(** Removal of the trailing characters satisfying [p]. *)
Fixpoint rstrip_by (p : ascii -> bool) (s : string) : string :=
  match s with
  | EmptyString => EmptyString
  | String c s' =>
      match rstrip_by p s' with
      | EmptyString => if p c then EmptyString else String c EmptyString
      | r => String c r
      end
  end.

Fixpoint mem (c : ascii) (chars : string) : bool :=
  match chars with
  | EmptyString => false
  | String d chars' => Ascii.eqb c d || mem c chars'
  end.

(** [s.strip()]: whitespace off both ends. *)
Definition strip (s : string) : string :=
  rstrip_by isspace (lstrip_by isspace s).

(** [s.strip(chars)]: the characters of [chars] off both ends. *)
Definition strip_chars (chars s : string) : string :=
  rstrip_by (fun c => mem c chars) (lstrip_by (fun c => mem c chars) s).

(** [s.rstrip(chars)]: the characters of [chars] off the right end only. *)
Definition rstrip_chars (chars s : string) : string :=
  rstrip_by (fun c => mem c chars) s.

(** [s.replace(old, new)] for a non-empty [old]: left to right, matches
    do not overlap.  [skip] counts the characters of the current match
    still to be dropped. *)
Fixpoint replace_scan (old new : string) (skip : nat) (s : string) : string :=
  match s with
  | EmptyString => EmptyString
  | String c s' =>
      match skip with
      | S k => replace_scan old new k s'
      | O =>
          if startswith old s
          then new ++ replace_scan old new (String.length old - 1) s'
          else String c (replace_scan old new 0 s')
      end
  end.

(** [s.replace("", new)] puts [new] before every character and at the end. *)
Fixpoint replace_empty (new s : string) : string :=
  match s with
  | EmptyString => new
  | String c s' => new ++ String c (replace_empty new s')
  end.

Definition replace (old new s : string) : string :=
  match old with
  | EmptyString => replace_empty new s
  | String _ _ => replace_scan old new 0 s
  end.

(** [s.split()]: maximal runs of non-whitespace; [w] is the run being
    read. *)
Fixpoint split_scan (w : string) (s : string) : list string :=
  match s with
  | EmptyString =>
      match w with EmptyString => [] | _ => [w] end
  | String c s' =>
      if isspace c
      then match w with
           | EmptyString => split_scan EmptyString s'
           | _ => w :: split_scan EmptyString s'
           end
      else split_scan (w ++ String c EmptyString) s'
  end.

Definition split (s : string) : list string := split_scan EmptyString s.

(** [sep.join(parts)] *)
Fixpoint join (sep : string) (parts : list string) : string :=
  match parts with
  | [] => EmptyString
  | [x] => x
  | x :: rest => x ++ sep ++ join sep rest
  end.

(** [template.format] called with the keyword arguments [kw], for
    templates whose replacement fields are
    plain keyword names: [{{] and [}}] are the escaped braces, [{name}] is
    replaced by [kw[name]].  [field] holds the name being read inside a
    field.  A lone [}], a [{] inside a field and an unclosed field raise
    ValueError; an unknown name raises KeyError; the empty field [{}]
    asks for a positional argument, of which there is none, and raises
    IndexError.  Conversions, format specifications, attribute and index
    access are outside this model (no template of main.py has them). *)
Fixpoint format_scan (kw : dict) (field : option string) (s : string)
  : res string :=
  match s with
  | EmptyString =>
      match field with
      | None => Ok EmptyString
      | Some _ => Raise ValueError
      end
  | String c s' =>
      match field with
      | Some name =>
          if Ascii.eqb c "}" then
            v <- (match name with
                  | EmptyString => Raise IndexError
                  | _ => dict_getitem kw name
                  end) ;;
            rest <- format_scan kw None s' ;;
            Ok (v ++ rest)
          else if Ascii.eqb c "{" then Raise ValueError
          else format_scan kw (Some (name ++ String c EmptyString)) s'
      | None =>
          if Ascii.eqb c "{" then
            match s' with
            | String d s'' =>
                if Ascii.eqb d "{"
                then rest <- format_scan kw None s'' ;; Ok (String "{" rest)
                else format_scan kw (Some EmptyString) s'
            | EmptyString => Raise ValueError
            end
          else if Ascii.eqb c "}" then
            match s' with
            | String d s'' =>
                if Ascii.eqb d "}"
                then rest <- format_scan kw None s'' ;; Ok (String "}" rest)
                else Raise ValueError
            | EmptyString => Raise ValueError
            end
          else rest <- format_scan kw None s' ;; Ok (String c rest)
      end
  end.

Definition format (template : string) (kw : dict) : res string :=
  format_scan kw None template.

(** The newline character and string. *)
Definition LF : ascii := ascii_of_nat 10.
Definition nl : string := String LF EmptyString.

End Str.

(* ================================================================== *)
(** ** Persona transforms *)

Module Persona.

Import Str.

(* Very small, imperfect 'Shakespeare-izer' *)
Definition SHAKESPEARE_REPLACEMENTS : list (string * string) :=
  [ (" you ", " thou ");
    (" are ", " art ");
    (" my ", " mine ");
    (" is ", " isst ");
    (" don't ", " doest not ");
    (" do not ", " doest not ");
    (" hello", " well met") ].

(** The text of [to_shakespeare] before the capitalisation: padding,
    lowering, the replacement loop and the trim. *)
Definition shakespeare_body (text : string) : string :=
  let t := " " ++ lower text ++ " " in
  let t := fold_left (fun t ab => replace (fst ab) (snd ab) t)
                     SHAKESPEARE_REPLACEMENTS t in
  strip t.

(** [if len(t) > 0: t = t[0].upper() + t[1:]] *)
Definition capitalize_first (t : string) : res string :=
  if 0 <? String.length t
  then c <- getitem t 0 ;; Ok (upper1 c ++ slice_from 1 t)
  else Ok t.

Definition to_shakespeare (text : string) : res string :=
  let t := shakespeare_body text in
  t <- capitalize_first t ;;
  let t := if negb (endswith_any ["."; "!"; "?"] t)
           then t ++ ", prithee."
           else t in
  Ok t.


(* Few roast templates *)
Definition ROAST_TEMPLATES : list string :=
  [ "Oh look, {u}. If I wanted to hear from someone like you, I'd ask my Wi-Fi to drop connection.";
    "{u}, you're like a software update. Whenever I see you, I think 'Not now.'";
    "If wit were RAM, {u}, you'd still be buffering.";
    "You're proof that evolution can go in reverse, {u}." ].

(** [short_user = (user_text[:30] + '...') if len(user_text) > 30 else user_text] *)
Definition short_user (user_text : string) : string :=
  if 30 <? String.length user_text
  then slice_to 30 user_text ++ "..."
  else user_text.

Definition make_roast (r : nat) (user_text : string) : res string :=
  t <- choice ROAST_TEMPLATES r ;;
  format t [("u", short_user user_text)].

(* Emoji translator (simple common words map) *)
Definition EMOJI_MAP : dict :=
  [ ("happy", ":smile:");
    ("sad", ":pensive:");
    ("love", ":heart:");
    ("fire", ":fire:");
    ("ok", ":ok_hand:");
    ("yes", ":white_check_mark:");
    ("no", ":x:");
    ("cat", ":cat:");
    ("dog", ":dog:");
    ("hello", ":wave:");
    ("thanks", ":pray:") ].

(** [key = w.lower().strip('.,!?')] *)
Definition emoji_key (w : string) : string := strip_chars ".,!?" (lower w).

Section Emoji.

(** [emoji.emojize(alias, language='alias')] of the emoji package, which
    resolves an alias to its glyph. *)
Variable emojize : string -> string.

(** One iteration of the loop of [to_emoji]: [out.append(...)]. *)
Definition emoji_step (out : list string) (w : string) : res (list string) :=
  let key := emoji_key w in
  if dict_contains EMOJI_MAP key
  then a <- dict_getitem EMOJI_MAP key ;; Ok (out ++ [emojize a])%list
  else Ok (out ++ [w])%list.

Definition to_emoji (text : string) : res string :=
  let words := split text in
  out <- for_each emoji_step words [] ;;
  Ok (join " " out).

End Emoji.

End Persona.

(* ================================================================== *)
(** ** The submission cycle of the Streamlit script *)

Module App.

Import Str Persona.

Inductive role : Type := user | bot.

(** An entry of [st.session_state['history']]: [(role, text, time)]. *)
Definition turn : Type := (role * string * string)%type.

Definition turn_role (t : turn) : role := fst (fst t).
Definition turn_text (t : turn) : string := snd (fst t).

(** The options of the persona select box. *)
Inductive persona : Type :=
| Neutral
| RoastBot
| ShakespeareBot
| EmojiTranslator.

(** What [conv_pipeline(conv)] does: it returns a conversation with its
    [generated_responses], or raises an [Exception] [e], of which the
    script uses [str(e)] only. *)
Inductive model_outcome : Type :=
| Responded (generated_responses : list string)
| Failed (str_e : string).

(** What one run of the script reads from outside: the model, the emoji
    package, the random generator and the clock ([timestamp()] is called
    once for the user turn and once for the bot turn). *)
Record env : Type := {
  conv_pipeline : string -> model_outcome;
  emojize : string -> string;
  draw : nat;
  timestamp_user : string;
  timestamp_bot : string
}.

(** [st.session_state]: the history and the conversation object.  Of
    the [Conversation] object stored at line 191, [conv] keeps the text it
    was created with at line 190; what the pipeline later adds to that
    same object (its answer) is not recorded here. *)
Record session : Type := {
  history : list turn;
  conv : option string
}.

Definition initial_session : session := {| history := []; conv := None |}.

(** [h[0] in ('user','bot')] *)
Definition is_user_or_bot (t : turn) : bool :=
  match turn_role t with user => true | bot => true end.

Definition persona_instruction (p : persona) : string :=
  match p with
  | RoastBot =>
      "You are RoastBot. Always answer with a witty, sarcastic roast aimed playfully at the user." ++ nl
  | ShakespeareBot =>
      "You are ShakespeareBot. Answer in Early Modern English, using poetic and archaic phrasing." ++ nl
  | EmojiTranslator =>
      "You are Emoji Translator Bot. Concisely translate the user's message into emoji-rich text." ++ nl
  | Neutral => ""
  end.

(** The body of the loop over [turns_to_include]. *)
Definition render_turn (t : turn) : string :=
  match turn_role t with
  | user => "User: " ++ turn_text t ++ nl
  | bot => "Bot: " ++ turn_text t ++ nl
  end.

(** [[t for t in history if t[0] in ('user','bot')][-max_history*2:]] *)
Definition turns_to_include (h : list turn) (max_history : Z) : list turn :=
  slice_from_index (- max_history * 2)%Z (filter is_user_or_bot h).

(** The final cue [f"User: {user_input}\nBot:"]. *)
Definition final_cue (user_input : string) : string :=
  "User: " ++ user_input ++ nl ++ "Bot:".

(** Lines 170 to 186: the list [prompt_parts], built from the history the
    session holds when the lines run. *)
Definition prompt_parts (h : list turn) (p : persona) (max_history : Z)
           (user_input : string) : list string :=
  let parts := [persona_instruction p] in
  let parts := fold_left (fun parts t => parts ++ [render_turn t])%list
                         (turns_to_include h max_history) parts in
  (parts ++ [final_cue user_input])%list.

(** Line 187: [model_input = "\n".join(prompt_parts)]. *)
Definition model_input (h : list turn) (p : persona) (max_history : Z)
           (user_input : string) : string :=
  join nl (prompt_parts h p max_history user_input).

(** Lines 193 to 197: the guarded model call. *)
Definition bot_raw (e : env) (prompt : string) : string :=
  match conv_pipeline e prompt with
  | Responded generated_responses =>
      match generated_responses with
      | [] => "I have nothing to say."
      | _ :: _ => last generated_responses ""
      end
  | Failed str_e => "(model error) " ++ str_e
  end.

(** Lines 200 to 210: post-processing according to the persona. *)
Definition bot_display (e : env) (p : persona) (user_input raw : string)
  : res string :=
  match p with
  | RoastBot =>
      roast_prefix <- make_roast (draw e) user_input ;;
      Ok ("**" ++ roast_prefix ++ "**  " ++ nl ++ nl ++ raw)
  | ShakespeareBot => to_shakespeare raw
  | EmojiTranslator => to_emoji (emojize e) user_input
  | Neutral => Ok raw
  end.

(** Line 165: the history once the user turn is appended. *)
Definition history_with_user (e : env) (user_input : string) (st : session)
  : list turn :=
  (history st ++ [(user, user_input, timestamp_user e)])%list.

(** Lines 170 to 187 as the script runs them: the prompt is assembled
    from the history that already holds the user turn. *)
Definition prompt_of_run (e : env) (p : persona) (max_history : Z)
           (user_input : string) (st : session) : string :=
  model_input (history_with_user e user_input st) p max_history user_input.

(** Lines 163 to 213: what the script does to the session when the text
    input holds [user_input].  An empty input is falsy and the block is
    skipped. *)
Definition on_submit (e : env) (p : persona) (max_history : Z)
           (user_input : string) (st : session) : res session :=
  match user_input with
  | EmptyString => Ok st
  | String _ _ =>
      let h := history_with_user e user_input st in
      let prompt := prompt_of_run e p max_history user_input st in
      let raw := bot_raw e prompt in
      display <- bot_display e p user_input raw ;;
      Ok {| history := (h ++ [(bot, display, timestamp_bot e)])%list;
            conv := Some prompt |}
  end.

(** The bot turns of a history. *)
Definition bot_turns (h : list turn) : list turn :=
  filter (fun t => match turn_role t with bot => true | user => false end) h.

(** What happens in one run of the script: the "Clear conversation"
    button is pressed (lines 134 to 136: the state is cleared, and the
    rerun that follows initialises it again, lines 139 to 142), or the
    text input holds a message (lines 163 to 213). *)
Inductive event : Type :=
| Clear
| Submit (e : env) (p : persona) (max_history : Z) (user_input : string).

Definition run (ev : event) (st : session) : res session :=
  match ev with
  | Clear => Ok initial_session
  | Submit e p max_history user_input =>
      on_submit e p max_history user_input st
  end.

(** A sequence of runs of one session. *)
Fixpoint run_all (evs : list event) (st : session) : res session :=
  match evs with
  | [] => Ok st
  | ev :: evs' => st' <- run ev st ;; run_all evs' st'
  end.

End App.

(* ================================================================== *)
(** ** Vocabulary of the statements *)

Module Spec.

Import Str Persona App.

Fixpoint all_chars (p : ascii -> bool) (s : string) : bool :=
  match s with
  | EmptyString => true
  | String c s' => p c && all_chars p s'
  end.

(** A token: a non-empty string without whitespace. *)
Definition is_token (s : string) : bool :=
  negb (String.eqb s "") && all_chars (fun c => negb (isspace c)) s.

(** No brace, hence no replacement field and no escape. *)
Definition brace_free (s : string) : bool :=
  all_chars (fun c => negb (Ascii.eqb c "{" || Ascii.eqb c "}")) s.

(** The first and the last character of a string. *)
Definition first_char (s : string) : option ascii := String.get 0 s.

Fixpoint last_char (s : string) : option ascii :=
  match s with
  | EmptyString => None
  | String c EmptyString => Some c
  | String _ s' => last_char s'
  end.

(** [p] holds of no character at either end of [s]. *)
Definition ends_clear (p : ascii -> bool) (s : string) : Prop :=
  (forall c, first_char s = Some c -> p c = false) /\
  (forall c, last_char s = Some c -> p c = false).

(** The characters [str.strip] is called with in [to_emoji]. *)
Definition is_punct (c : ascii) : bool := mem c ".,!?".

(** Every glyph the map can produce is one token. *)
Definition glyphs_are_tokens (emojize : string -> string) : bool :=
  forallb (fun kv => is_token (emojize (snd kv))) EMOJI_MAP.

(** A template with exactly one replacement field, [{u}]. *)
Definition one_placeholder (t : string) : Prop :=
  exists pre post,
    t = pre ++ "{u}" ++ post /\ brace_free pre = true /\ brace_free post = true.

(** [u] is [x] cut to its first 30 characters, followed by "..." exactly
    when [x] has more than 30. *)
Definition truncation_of (x u : string) : Prop :=
  (String.length x <= 30 /\ u = x) \/
  (30 < String.length x /\
   exists head tail,
     x = head ++ tail /\ String.length head = 30 /\ u = head ++ "...").

(** The token-wise reading of [to_emoji], with the lookup key left open:
    a token whose key is in the map becomes the glyph of its alias, any
    other token stays as it is. *)
Definition translate_token (key : string -> string)
           (emojize : string -> string) (w : string) : string :=
  match dict_get EMOJI_MAP (key w) with
  | Some a => emojize a
  | None => w
  end.

(** The list [out] that [to_emoji] joins. *)
Definition translation (emojize : string -> string) (text : string)
  : list string :=
  map (translate_token emoji_key emojize) (split text).

(** The emojify of the specification, in its words: the key of a token
    is the token lowercased with the trailing punctuation stripped. *)
Definition emojify_spec (emojize : string -> string) (text : string) : string :=
  join " " (map (translate_token (fun w => rstrip_chars ".,!?" (lower w)) emojize)
                (split text)).

(** The bot text by persona: what the post-processing makes of the raw
    text [raw] and the user message. *)
Definition displayed (e : env) (p : persona) (user_input raw display : string)
  : Prop :=
  match p with
  | RoastBot =>
      exists roast,
        make_roast (draw e) user_input = Ok roast /\
        display = "**" ++ roast ++ "**  " ++ nl ++ nl ++ raw
  | ShakespeareBot => to_shakespeare raw = Ok display
  | EmojiTranslator => to_emoji (emojize e) user_input = Ok display
  | Neutral => display = raw
  end.

(** The session after a run that appended the user turn and one bot turn
    with the text [display]. *)
Definition after_run (e : env) (p : persona) (max_history : Z)
           (user_input : string) (st : session) (display : string) : session :=
  {| history := history st ++ [(user, user_input, timestamp_user e);
                               (bot, display, timestamp_bot e)];
     conv := Some (prompt_of_run e p max_history user_input st) |}.

(** A resolver that leaves the alias as text, which is what [emojize]
    does with an alias it does not know; it serves to run [to_emoji]. *)
Definition alias_text (a : string) : string := a.

(** A model that fails with the message "boom". *)
Definition failing_env : env :=
  {| conv_pipeline := fun _ => Failed "boom";
     emojize := alias_text;
     draw := 0;
     timestamp_user := "2024-01-01 10:00:00";
     timestamp_bot := "2024-01-01 10:00:01" |}.

(** A model that answers "ok" to every prompt. *)
Definition echo_env : env :=
  {| conv_pipeline := fun _ => Responded ["ok"];
     emojize := alias_text;
     draw := 0;
     timestamp_user := "2024-01-01 10:00:00";
     timestamp_bot := "2024-01-01 10:00:01" |}.

(** A model that returns no generated response. *)
Definition silent_env : env :=
  {| conv_pipeline := fun _ => Responded [];
     emojize := alias_text;
     draw := 0;
     timestamp_user := "2024-01-01 10:00:00";
     timestamp_bot := "2024-01-01 10:00:01" |}.

(** A log of ten user/bot pairs with pairwise distinct texts. *)
Definition ten_pairs : list turn :=
  flat_map (fun n => [(user, "u" ++ n, "t"); (bot, "b" ++ n, "t")])
           ["1"; "2"; "3"; "4"; "5"; "6"; "7"; "8"; "9"; "10"].

(** A text of ASCII characters, on which [lower], [upper_char] and
    [isspace] are Python's [str.lower], [str.upper] and [str.isspace]. *)
Definition is_ascii (s : string) : bool :=
  all_chars (fun c => code c <? 128) s.

(** No capital letter. *)
Definition no_upper (s : string) : bool :=
  all_chars (fun c => negb (isupper c)) s.

(** A word with a character other than punctuation at each end. *)
Definition clean_word (k : string) : bool :=
  match first_char k, last_char k with
  | Some a, Some b => negb (is_punct a) && negb (is_punct b)
  | _, _ => false
  end.

(** No glyph is itself looked up as a word of the map. *)
Definition glyphs_unmapped (emojize : string -> string) : bool :=
  forallb (fun kv => negb (dict_contains EMOJI_MAP
                             (emoji_key (emojize (snd kv)))))
          EMOJI_MAP.

(** The length of the longest roast template without its placeholder. *)
Definition ROAST_FRAME_MAX : nat := 90.

(** A log of user/bot pairs whose user texts are not empty. *)
Fixpoint alternating (h : list turn) : bool :=
  match h with
  | [] => true
  | (user, u, _) :: (bot, _, _) :: h' =>
      negb (String.eqb u "") && alternating h'
  | _ => false
  end.

(** What every run keeps: user and bot turns alternate, and a prompt is
    recorded exactly when the log is not empty. *)
Definition session_ok (st : session) : Prop :=
  alternating (history st) = true /\
  (conv st = None <-> history st = []).

(** The prompt after the instruction line: every turn of the window
    rendered and followed by the separator, then the final cue. *)
Fixpoint rendered_window (ts : list turn) (cue : string) : string :=
  match ts with
  | [] => cue
  | t :: ts' => render_turn t ++ nl ++ rendered_window ts' cue
  end.

End Spec.

Import Str Persona App Spec.

(* ================================================================== *)
(** ** Facts about the string operations *)

Section StrFacts.

Lemma append_nil_r (s : string) : s ++ "" = s.
Proof. induction s as [|c s IH]; simpl; [reflexivity | now rewrite IH]. Qed.

Lemma append_assoc (a b c : string) : (a ++ b) ++ c = a ++ (b ++ c).
Proof. induction a as [|x a IH]; simpl; [reflexivity | now rewrite IH]. Qed.

Lemma length_append (a b : string) :
  String.length (a ++ b) = String.length a + String.length b.
Proof. induction a as [|x a IH]; simpl; [reflexivity | now rewrite IH]. Qed.

Lemma all_chars_append p (a b : string) :
  all_chars p (a ++ b) = all_chars p a && all_chars p b.
Proof.
  induction a as [|x a IH]; simpl; [reflexivity|].
  now rewrite IH, andb_assoc.
Qed.

Lemma slice_to_from (n : nat) (s : string) : slice_to n s ++ slice_from n s = s.
Proof.
  revert s; induction n as [|n IH]; intros [|c s]; simpl; try reflexivity.
  now rewrite IH.
Qed.

Lemma length_slice_to (n : nat) (s : string) :
  String.length (slice_to n s) = Nat.min n (String.length s).
Proof.
  revert s; induction n as [|n IH]; intros [|c s]; simpl; try reflexivity.
  now rewrite IH.
Qed.

(** Reading a whitespace-free run extends the word in progress. *)
Lemma split_scan_run (t w rest : string) :
  all_chars (fun c => negb (isspace c)) t = true ->
  split_scan w (t ++ rest) = split_scan (w ++ t) rest.
Proof.
  revert w; induction t as [|c t IH]; intros w H; simpl in *.
  - now rewrite append_nil_r.
  - apply andb_prop in H as [Hc Ht].
    apply negb_true_iff in Hc. rewrite Hc.
    rewrite IH by exact Ht.
    now rewrite append_assoc.
Qed.

(** [split] yields tokens only. *)
Lemma split_scan_tokens (s w : string) :
  all_chars (fun c => negb (isspace c)) w = true ->
  Forall (fun t => is_token t = true) (split_scan w s).
Proof.
  revert w; induction s as [|c s IH]; intros w Hw; simpl.
  - destruct w as [|x w]; constructor; [|constructor].
    unfold is_token. simpl in *. exact Hw.
  - destruct (isspace c) eqn:Hc.
    + destruct w as [|x w].
      * apply IH. reflexivity.
      * constructor; [unfold is_token; simpl in *; exact Hw|].
        apply IH. reflexivity.
    + apply IH. rewrite all_chars_append, Hw. simpl. now rewrite Hc.
Qed.

Lemma split_tokens (s : string) :
  Forall (fun t => is_token t = true) (split s).
Proof. apply split_scan_tokens. reflexivity. Qed.

Lemma is_token_inv (t : string) :
  is_token t = true ->
  t <> "" /\ all_chars (fun c => negb (isspace c)) t = true.
Proof.
  unfold is_token. intros H. apply andb_prop in H as [H1 H2].
  split; [|exact H2].
  apply negb_true_iff in H1. now apply String.eqb_neq in H1.
Qed.

(** Joining tokens with single spaces and splitting again gives the
    tokens back. *)
Lemma split_join (toks : list string) :
  Forall (fun t => is_token t = true) toks ->
  split (join " " toks) = toks.
Proof.
  induction toks as [|x toks IH]; intros H; [reflexivity|].
  inversion H as [|? ? Hx Hrest]; subst.
  apply is_token_inv in Hx as [Hne Hx].
  destruct toks as [|y toks].
  - simpl. unfold split.
    rewrite <- (append_nil_r x) at 1.
    rewrite split_scan_run by exact Hx.
    simpl. destruct x; [contradiction | reflexivity].
  - change (join " " (x :: y :: toks)) with (x ++ " " ++ join " " (y :: toks)).
    unfold split. rewrite split_scan_run by exact Hx.
    simpl append at 1.
    change (" " ++ join " " (y :: toks))
      with (String " " (join " " (y :: toks))).
    simpl split_scan.
    destruct x as [|c x]; [contradiction|].
    f_equal. apply IH. exact Hrest.
Qed.

Section Strip.

Variable p : ascii -> bool.

Lemma lstrip_by_spec (s : string) :
  exists pre, s = pre ++ lstrip_by p s /\ all_chars p pre = true /\
              forall c, first_char (lstrip_by p s) = Some c -> p c = false.
Proof.
  induction s as [|c s (pre & E & Hpre & Hfirst)]; simpl.
  - exists "". repeat split; auto. discriminate.
  - destruct (p c) eqn:Hc.
    + exists (String c pre). simpl. rewrite <- E, Hc, Hpre. repeat split; auto.
    + exists "". repeat split; auto.
      intros d Hd. unfold first_char in Hd. simpl in Hd. congruence.
Qed.

Lemma rstrip_by_spec (s : string) :
  exists suf, s = rstrip_by p s ++ suf /\ all_chars p suf = true /\
              forall c, last_char (rstrip_by p s) = Some c -> p c = false.
Proof.
  induction s as [|c s (suf & E & Hsuf & Hlast)]; simpl.
  - exists "". repeat split; auto. discriminate.
  - destruct (rstrip_by p s) as [|d r] eqn:R.
    + simpl in E. subst suf. destruct (p c) eqn:Hc.
      * exists (String c s). simpl. rewrite Hc, Hsuf. repeat split; auto.
      * exists s. repeat split; auto. simpl. congruence.
    + exists suf. rewrite E at 1. repeat split; auto.
Qed.

(** Stripping the right end leaves the first character in place. *)
Lemma rstrip_by_first (s : string) :
  (forall c, first_char s = Some c -> p c = false) ->
  forall c, first_char (rstrip_by p s) = Some c -> p c = false.
Proof.
  destruct s as [|d s]; simpl; intros H c Hc; [discriminate|].
  destruct (rstrip_by p s); [destruct (p d) eqn:Hd|];
    unfold first_char in *; simpl in *; try discriminate;
    injection Hc as <-; now apply H.
Qed.

End Strip.

(** [strip_chars] removes a run of the given characters at each end and
    leaves none at either end of what remains. *)
Lemma strip_chars_spec (chars s : string) :
  exists pre suf,
    s = pre ++ strip_chars chars s ++ suf /\
    all_chars (fun c => mem c chars) pre = true /\
    all_chars (fun c => mem c chars) suf = true /\
    ends_clear (fun c => mem c chars) (strip_chars chars s).
Proof.
  unfold strip_chars.
  destruct (lstrip_by_spec (fun c => mem c chars) s) as (pre & E1 & Hpre & Hf).
  destruct (rstrip_by_spec (fun c => mem c chars)
              (lstrip_by (fun c => mem c chars) s)) as (suf & E2 & Hsuf & Hl).
  exists pre, suf. repeat split; auto.
  - rewrite <- E2. exact E1.
  - now apply rstrip_by_first.
Qed.

End StrFacts.

(* ================================================================== *)
(** ** The persona transforms *)

Section PersonaFacts.

(** A text without braces is copied by [format]. *)
Lemma format_scan_plain (kw : dict) (s rest : string) :
  brace_free s = true ->
  format_scan kw None (s ++ rest) =
  (r <- format_scan kw None rest ;; Ok (s ++ r)).
Proof.
  induction s as [|c s IH]; intros H; simpl.
  - now destruct (format_scan kw None rest).
  - simpl in H. apply andb_prop in H as [Hc Hs].
    apply negb_true_iff, orb_false_elim in Hc as [Ho Hcl].
    rewrite Ho, Hcl, IH by exact Hs.
    now destruct (format_scan kw None rest).
Qed.

Lemma format_scan_plain_end (kw : dict) (s : string) :
  brace_free s = true -> format_scan kw None s = Ok s.
Proof.
  intros H. rewrite <- (append_nil_r s) at 1.
  rewrite format_scan_plain by exact H. simpl. now rewrite append_nil_r.
Qed.

(** Filling the one field of a template. *)
Lemma format_fill (pre post v : string) :
  brace_free pre = true -> brace_free post = true ->
  format (pre ++ "{u}" ++ post) [("u", v)] = Ok (pre ++ v ++ post).
Proof.
  intros Hpre Hpost. unfold format.
  rewrite format_scan_plain by exact Hpre.
  cbn. rewrite format_scan_plain_end by exact Hpost.
  reflexivity.
Qed.

(** [random.choice] of a non-empty list returns one of its elements. *)
Lemma choice_in {A : Type} (seq : list A) (r : nat) :
  seq <> [] -> exists x, In x seq /\ choice seq r = Ok x.
Proof.
  intros Hne. unfold choice.
  destruct seq as [|a seq]; [contradiction|].
  assert (Hlt : r mod List.length (a :: seq) < List.length (a :: seq))
    by (apply Nat.mod_upper_bound; discriminate).
  destruct (nth_error (a :: seq) (r mod List.length (a :: seq))) as [x|] eqn:E.
  - exists x. split; [eapply nth_error_In; exact E | reflexivity].
  - apply nth_error_None in E. lia.
Qed.

Lemma roast_templates_one_placeholder :
  Forall one_placeholder ROAST_TEMPLATES.
Proof.
  repeat constructor.
  - exists "Oh look, ",
      ". If I wanted to hear from someone like you, I'd ask my Wi-Fi to drop connection.".
    repeat split.
  - exists "",
      ", you're like a software update. Whenever I see you, I think 'Not now.'".
    repeat split.
  - exists "If wit were RAM, ", ", you'd still be buffering.".
    repeat split.
  - exists "You're proof that evolution can go in reverse, ", ".".
    repeat split.
Qed.

Lemma short_user_truncation (x : string) : truncation_of x (short_user x).
Proof.
  unfold truncation_of, short_user.
  destruct (30 <? String.length x) eqn:E.
  - apply Nat.ltb_lt in E. right. split; [exact E|].
    exists (slice_to 30 x), (slice_from 30 x).
    rewrite slice_to_from, length_slice_to. repeat split. lia.
  - apply Nat.ltb_ge in E. left. split; [exact E | reflexivity].
Qed.

Lemma capitalize_first_eq (t : string) :
  capitalize_first t =
  Ok (match t with
      | EmptyString => EmptyString
      | String c t' => String (upper_char c) t'
      end).
Proof. destruct t; reflexivity. Qed.

Lemma dict_get_in (d : dict) (k a : string) :
  dict_get d k = Some a -> exists k', In (k', a) d.
Proof.
  induction d as [|[k' v] d IH]; simpl; [discriminate|].
  destruct (String.eqb k k').
  - intros [= ->]. exists k'. now left.
  - intros H. destruct (IH H) as [k'' Hin]. exists k''. now right.
Qed.

Section EmojiFacts.

Variable emojize : string -> string.

(** The loop of [to_emoji] appends the translation of each word. *)
Lemma emoji_step_eq (out : list string) (w : string) :
  emoji_step emojize out w =
  Ok (out ++ [translate_token emoji_key emojize w])%list.
Proof.
  unfold emoji_step, translate_token, dict_contains, dict_getitem.
  now destruct (dict_get EMOJI_MAP (emoji_key w)).
Qed.

Lemma emoji_loop_eq (words out : list string) :
  for_each (emoji_step emojize) words out =
  Ok (out ++ map (translate_token emoji_key emojize) words)%list.
Proof.
  revert out; induction words as [|w words IH]; intros out; simpl.
  - now rewrite app_nil_r.
  - rewrite emoji_step_eq, IH, <- app_assoc. reflexivity.
Qed.

Lemma to_emoji_eq (text : string) :
  to_emoji emojize text = Ok (join " " (translation emojize text)).
Proof. unfold to_emoji. now rewrite emoji_loop_eq. Qed.

Hypothesis glyphs : glyphs_are_tokens emojize = true.

Lemma translated_tokens (words : list string) :
  Forall (fun t => is_token t = true) words ->
  Forall (fun t => is_token t = true)
         (map (translate_token emoji_key emojize) words).
Proof.
  intros Hw. apply Forall_map. revert Hw. apply Forall_impl.
  intros w Hw. unfold translate_token.
  destruct (dict_get EMOJI_MAP (emoji_key w)) as [a|] eqn:E; [|exact Hw].
  apply dict_get_in in E as [k' Hin].
  pose proof glyphs as Hg.
  unfold glyphs_are_tokens in Hg. rewrite forallb_forall in Hg.
  exact (Hg _ Hin).
Qed.

(** With glyphs that are tokens, the output splits into the translated
    tokens. *)
Lemma split_to_emoji_output (text : string) :
  split (join " " (translation emojize text)) = translation emojize text.
Proof. apply split_join, translated_tokens, split_tokens. Qed.

End EmojiFacts.

End PersonaFacts.

(** C1: [to_shakespeare "hello"] is "Well met, prithee.": the " hello"
    rule rewrites the padded text, the trim leaves "well met", the first
    character is uppercased, and as the text ends in none of '.', '!',
    '?' the suffix ", prithee." is appended. *)
Theorem to_shakespeare_hello :
  replace " hello" " well met" " hello " = " well met " /\
  shakespeare_body "hello" = "well met" /\
  capitalize_first "well met" = Ok "Well met" /\
  endswith_any ["."; "!"; "?"] "Well met" = false /\
  to_shakespeare "hello" = Ok "Well met, prithee.".
Proof. repeat split. Qed.

(** C7: when the transformed text (replaced, trimmed, first character
    uppercased) already ends in '.', '!' or '?', [to_shakespeare] returns
    it without the ", prithee." suffix; so "you are great!" becomes
    "Thou art great!". *)
Theorem to_shakespeare_keeps_final_punctuation :
  (forall text t,
      capitalize_first (shakespeare_body text) = Ok t ->
      endswith_any ["."; "!"; "?"] t = true ->
      to_shakespeare text = Ok t) /\
  to_shakespeare "you are great!" = Ok "Thou art great!".
Proof.
  split; [|reflexivity].
  intros text t Hcap Hend. unfold to_shakespeare.
  rewrite Hcap. cbv beta iota zeta delta [Py.bind]. now rewrite Hend.
Qed.

Lemma to_shakespeare_keeps_final_punctuation_witness :
  to_shakespeare "How now?" = Ok "How now?".
Proof.
  apply (proj1 to_shakespeare_keeps_final_punctuation
               "How now?" "How now?"); reflexivity.
Defined.

(** C6: the three persona transforms return a string on every input,
    none of the operations they use raises; [to_shakespeare] of the empty
    string is the suffix alone, ", prithee.". *)
Theorem persona_transforms_never_raise :
  (forall r user_text, returns (make_roast r user_text)) /\
  (forall text, returns (to_shakespeare text)) /\
  (forall emojize text, returns (to_emoji emojize text)) /\
  to_shakespeare "" = Ok ", prithee.".
Proof.
  repeat split.
  - intros r x. unfold make_roast.
    destruct (choice_in ROAST_TEMPLATES r) as (t & Hin & ->); [discriminate|].
    simpl Py.bind.
    pose proof roast_templates_one_placeholder as Hall.
    rewrite Forall_forall in Hall.
    destruct (Hall t Hin) as (pre & post & -> & Hpre & Hpost).
    rewrite format_fill by assumption. now eexists.
  - intros text. unfold to_shakespeare.
    rewrite capitalize_first_eq. simpl Py.bind. now eexists.
  - intros emojize text. rewrite to_emoji_eq. now eexists.
Qed.

(** C9: there are at least four roast templates, each with the one
    placeholder [{u}]; [make_roast x] is one of them with the placeholder
    replaced by [x] cut to 30 characters, followed by "..." exactly when
    [x] is longer than 30. *)
Theorem make_roast_fills_a_template (r : nat) (x : string) :
  4 <= List.length ROAST_TEMPLATES /\
  Forall one_placeholder ROAST_TEMPLATES /\
  exists pre post u,
    In (pre ++ "{u}" ++ post) ROAST_TEMPLATES /\
    brace_free pre = true /\ brace_free post = true /\
    truncation_of x u /\
    make_roast r x = Ok (pre ++ u ++ post).
Proof.
  split; [simpl; lia|].
  split; [exact roast_templates_one_placeholder|].
  unfold make_roast.
  destruct (choice_in ROAST_TEMPLATES r) as (t & Hin & ->); [discriminate|].
  simpl Py.bind.
  pose proof roast_templates_one_placeholder as Hall.
  rewrite Forall_forall in Hall.
  destruct (Hall t Hin) as (pre & post & -> & Hpre & Hpost).
  exists pre, post, (short_user x).
  repeat split; try assumption.
  - apply short_user_truncation.
  - now apply format_fill.
Qed.

(** C8, as the code has it: [to_emoji] splits on whitespace; the key of a
    token is the token lowercased with the punctuation ".,!?" stripped
    from both ends; a token whose key is in the map becomes the glyph,
    any other token is kept as it is; the results are joined with single
    spaces, one per input token, and when the glyphs are tokens the output
    splits back into exactly them. *)
Theorem to_emoji_tokenwise (emojize : string -> string) (text : string) :
  to_emoji emojize text = Ok (join " " (translation emojize text)) /\
  List.length (translation emojize text) = List.length (split text) /\
  (forall w, exists pre suf,
      lower w = pre ++ emoji_key w ++ suf /\
      all_chars is_punct pre = true /\ all_chars is_punct suf = true /\
      ends_clear is_punct (emoji_key w)) /\
  (glyphs_are_tokens emojize = true ->
   split (join " " (translation emojize text)) = translation emojize text) /\
  to_emoji emojize "I feel happy today" =
    Ok ("I feel " ++ emojize ":smile:" ++ " today").
Proof.
  split; [apply to_emoji_eq|].
  split; [apply length_map|].
  split; [intros w; apply strip_chars_spec|].
  split; [|reflexivity].
  intros Hg. now apply split_to_emoji_output.
Qed.

Lemma to_emoji_tokenwise_witness :
  glyphs_are_tokens alias_text = true /\
  split (join " " (translation alias_text "Thanks, I love my cat!")) =
    [":pray:"; "I"; ":heart:"; "my"; ":cat:"].
Proof.
  split; [reflexivity|].
  exact (proj1 (proj2 (proj2 (proj2
           (to_emoji_tokenwise alias_text "Thanks, I love my cat!"))))
         eq_refl).
Defined.

(** C8 as stated fails: with the trailing punctuation only stripped, the
    token "!happy" has no key in the map and would be kept, whereas
    [to_emoji] strips the leading '!' too and translates it. *)
Lemma emojify_trailing_only_counterexample :
  (forall emojize,
      to_emoji emojize "!happy" = Ok (emojize ":smile:") /\
      emojify_spec emojize "!happy" = "!happy") /\
  to_emoji alias_text "!happy" <> Ok (emojify_spec alias_text "!happy").
Proof.
  split; [intros emojize; split; reflexivity|].
  vm_compute. discriminate.
Qed.

(* ================================================================== *)
(** ** The submission cycle *)

Section AppFacts.

Lemma make_roast_returns (r : nat) (x : string) :
  exists roast, make_roast r x = Ok roast.
Proof.
  unfold make_roast.
  destruct (choice_in ROAST_TEMPLATES r) as (t & Hin & ->); [discriminate|].
  pose proof roast_templates_one_placeholder as Hall.
  rewrite Forall_forall in Hall.
  destruct (Hall t Hin) as (pre & post & -> & Hpre & Hpost).
  cbv beta iota delta [Py.bind].
  rewrite format_fill by assumption. now eexists.
Qed.

(** The roast is a template with its placeholder filled by the user
    text, cut to 30 characters. *)
Lemma make_roast_fill (r : nat) (x : string) :
  exists pre post u,
    In (pre ++ "{u}" ++ post) ROAST_TEMPLATES /\
    brace_free pre = true /\ brace_free post = true /\
    truncation_of x u /\
    make_roast r x = Ok (pre ++ u ++ post).
Proof.
  unfold make_roast.
  destruct (choice_in ROAST_TEMPLATES r) as (t & Hin & ->); [discriminate|].
  pose proof roast_templates_one_placeholder as Hall.
  rewrite Forall_forall in Hall.
  destruct (Hall t Hin) as (pre & post & -> & Hpre & Hpost).
  cbv beta iota delta [Py.bind].
  exists pre, post, (short_user x).
  repeat split; try assumption.
  - apply short_user_truncation.
  - now apply format_fill.
Qed.

Lemma to_shakespeare_returns (text : string) :
  exists t, to_shakespeare text = Ok t.
Proof.
  unfold to_shakespeare. rewrite capitalize_first_eq.
  cbv beta iota zeta delta [Py.bind]. now eexists.
Qed.

Lemma filter_user_or_bot (h : list turn) : filter is_user_or_bot h = h.
Proof.
  induction h as [|[[r x] t] h IH]; [reflexivity|].
  destruct r; cbn [filter is_user_or_bot turn_role fst]; now rewrite IH.
Qed.

(** The loop over [turns_to_include] appends one rendered line per turn. *)
Lemma render_loop (ts : list turn) (parts : list string) :
  fold_left (fun parts t => parts ++ [render_turn t])%list ts parts =
  (parts ++ map render_turn ts)%list.
Proof.
  revert parts; induction ts as [|t ts IH]; intros parts; simpl.
  - now rewrite app_nil_r.
  - now rewrite IH, <- app_assoc.
Qed.

Lemma bot_turns_after_cycle (h : list turn) (u d tu tb : string) :
  bot_turns (h ++ [(user, u, tu); (bot, d, tb)]) =
  (bot_turns h ++ [(bot, d, tb)])%list.
Proof. unfold bot_turns. now rewrite filter_app. Qed.

Section OneRun.

Variables (e : env) (p : persona) (max_history : Z).
Variables (user_input : string) (st : session).

(** The post-processing returns a text for every persona, and the text
    is the one the persona prescribes. *)
Lemma bot_display_returns (raw : string) :
  exists display,
    bot_display e p user_input raw = Ok display /\
    displayed e p user_input raw display.
Proof.
  unfold displayed. destruct p; simpl.
  - now eexists.
  - destruct (make_roast_returns (draw e) user_input) as [roast Hr].
    rewrite Hr. simpl. eexists. split; [reflexivity|].
    exists roast. now split.
  - destruct (to_shakespeare_returns raw) as [t Ht]. now exists t.
  - rewrite to_emoji_eq. now eexists.
Qed.

(** One run with a non-empty input appends the user turn and one bot
    turn, whose text is the post-processed raw text. *)
Lemma on_submit_eq (display : string) :
  user_input <> "" ->
  bot_display e p user_input
    (bot_raw e (prompt_of_run e p max_history user_input st)) = Ok display ->
  on_submit e p max_history user_input st =
  Ok (after_run e p max_history user_input st display).
Proof.
  intros Hne Hd. unfold on_submit, after_run.
  destruct user_input as [|c u]; [contradiction|].
  rewrite Hd. simpl Py.bind. unfold history_with_user.
  now rewrite <- app_assoc.
Qed.

Lemma bot_turns_after_run (display : string) :
  List.length (bot_turns
                 (history (after_run e p max_history user_input st display))) =
  S (List.length (bot_turns (history st))).
Proof.
  unfold after_run. cbn [history].
  rewrite bot_turns_after_cycle, length_app. simpl. lia.
Qed.

Lemma prompt_parts_eq (h : list turn) :
  prompt_parts h p max_history user_input =
  (persona_instruction p
     :: map render_turn (turns_to_include h max_history)
     ++ [final_cue user_input])%list.
Proof. unfold prompt_parts. now rewrite render_loop. Qed.

(** The window is the end of the history it is taken from, of at most
    [2 * max_history] turns. *)
Lemma turns_to_include_suffix (h : list turn) :
  (1 <= max_history)%Z ->
  turns_to_include h max_history =
    skipn (List.length h - 2 * Z.to_nat max_history) h /\
  List.length (turns_to_include h max_history) =
    Nat.min (2 * Z.to_nat max_history) (List.length h).
Proof.
  intros Hm. unfold turns_to_include, slice_from_index.
  rewrite filter_user_or_bot.
  destruct (- max_history * 2 <? 0)%Z eqn:E; [|apply Z.ltb_ge in E; lia].
  assert (Hi : Z.to_nat (Z.max 0 (- max_history * 2 + Z.of_nat (List.length h)))
               = List.length h - 2 * Z.to_nat max_history) by lia.
  rewrite Hi. split; [reflexivity|].
  rewrite length_skipn. lia.
Qed.

(** Taken on its own, with a log that does not hold the new message, the
    assembly gives the instruction line and the final cue for an empty
    log. *)
Lemma model_input_empty_log :
  model_input [] p max_history user_input =
  persona_instruction p ++ nl ++ final_cue user_input.
Proof.
  unfold model_input. rewrite prompt_parts_eq.
  unfold turns_to_include, slice_from_index. simpl filter.
  now rewrite skipn_nil.
Qed.

End OneRun.

(** Taken on its own on the log of ten pairs, the assembly renders its
    last four entries. *)
Lemma prompt_parts_ten_pairs_alone :
  prompt_parts ten_pairs Neutral 2 "new" =
  [ ""; "User: u9" ++ nl; "Bot: b9" ++ nl; "User: u10" ++ nl;
    "Bot: b10" ++ nl; "User: new" ++ nl ++ "Bot:" ].
Proof. reflexivity. Qed.

End AppFacts.

(** C4: in a run with a non-empty message, the text of the bot turn
    appended to the log is, by persona: for RoastBot a roast, which is one
    of the roast templates with its placeholder filled by the user message
    (cut to 30 characters, with "..." when longer), in bold, then a blank
    line and the raw model text; for ShakespeareBot [to_shakespeare] of
    the raw model text; for Emoji Translator [to_emoji] of the user
    message, whatever the model produced; for Neutral the raw model
    text. *)
Theorem bot_text_by_persona (e : env) (p : persona) (max_history : Z)
        (user_input : string) (st : session) :
  user_input <> "" ->
  exists raw display,
    raw = bot_raw e (prompt_of_run e p max_history user_input st) /\
    on_submit e p max_history user_input st =
    Ok {| history := history st ++ [(user, user_input, timestamp_user e);
                                    (bot, display, timestamp_bot e)];
          conv := Some (prompt_of_run e p max_history user_input st) |} /\
    match p with
    | RoastBot =>
        exists roast pre post u,
          make_roast (draw e) user_input = Ok roast /\
          In (pre ++ "{u}" ++ post) ROAST_TEMPLATES /\
          brace_free pre = true /\ brace_free post = true /\
          truncation_of user_input u /\
          roast = pre ++ u ++ post /\
          display = "**" ++ roast ++ "**  " ++ nl ++ nl ++ raw
    | ShakespeareBot => to_shakespeare raw = Ok display
    | EmojiTranslator => to_emoji (emojize e) user_input = Ok display
    | Neutral => display = raw
    end.
Proof.
  intros Hne.
  set (raw := bot_raw e _).
  destruct (bot_display_returns e p user_input raw) as (display & Hd & Hcase).
  exists raw, display. split; [reflexivity|].
  split; [now apply on_submit_eq|].
  destruct p; try exact Hcase.
  destruct Hcase as (roast & Hroast & Hdisplay).
  destruct (make_roast_fill (draw e) user_input)
    as (pre & post & u & Hin & Hpre & Hpost & Htr & Hfill).
  exists roast, pre, post, u.
  repeat split; try assumption.
  rewrite Hroast in Hfill. now injection Hfill.
Qed.

Lemma bot_text_by_persona_witness :
  exists raw display,
    raw = "ok" /\
    on_submit echo_env ShakespeareBot 6 "hi" initial_session =
    Ok {| history := [(user, "hi", "2024-01-01 10:00:00");
                      (bot, display, "2024-01-01 10:00:01")];
          conv := Some (prompt_of_run echo_env ShakespeareBot 6 "hi"
                                      initial_session) |} /\
    to_shakespeare raw = Ok display.
Proof.
  apply (bot_text_by_persona echo_env ShakespeareBot 6 "hi" initial_session).
  discriminate.
Defined.

(** C5, as the code has it: when the model call raises an [Exception]
    [e], nothing propagates; the raw bot text is "(model error) " followed
    by [str(e)]; it goes through the post-processing of the persona like
    any model text (under Neutral it is the bot text as it is), and the
    run appends the user turn and exactly one bot turn. *)
Theorem model_failure_appends_one_bot_turn
        (e : env) (p : persona) (max_history : Z) (user_input : string)
        (st : session) (str_e : string) :
  user_input <> "" ->
  conv_pipeline e (prompt_of_run e p max_history user_input st)
    = Failed str_e ->
  bot_raw e (prompt_of_run e p max_history user_input st)
    = "(model error) " ++ str_e /\
  exists display st',
    displayed e p user_input ("(model error) " ++ str_e) display /\
    on_submit e p max_history user_input st = Ok st' /\
    history st' = (history st ++ [(user, user_input, timestamp_user e);
                                  (bot, display, timestamp_bot e)])%list /\
    List.length (bot_turns (history st')) =
      S (List.length (bot_turns (history st))).
Proof.
  intros Hne Hfail.
  assert (Hraw : bot_raw e (prompt_of_run e p max_history user_input st)
                 = "(model error) " ++ str_e)
    by (unfold bot_raw; now rewrite Hfail).
  split; [exact Hraw|].
  destruct (bot_display_returns e p user_input ("(model error) " ++ str_e))
    as (display & Hd & Hcase).
  exists display, (after_run e p max_history user_input st display).
  split; [exact Hcase|].
  split; [apply on_submit_eq; [exact Hne | rewrite Hraw; exact Hd]|].
  split; [reflexivity | apply bot_turns_after_run].
Qed.

Lemma model_failure_appends_one_bot_turn_witness :
  bot_raw failing_env (prompt_of_run failing_env Neutral 6 "hi" initial_session)
    = "(model error) boom" /\
  exists display st',
    display = "(model error) boom" /\
    on_submit failing_env Neutral 6 "hi" initial_session = Ok st' /\
    history st' = [(user, "hi", "2024-01-01 10:00:00");
                   (bot, display, "2024-01-01 10:00:01")] /\
    List.length (bot_turns (history st')) = 1.
Proof.
  apply (model_failure_appends_one_bot_turn
           failing_env Neutral 6 "hi" initial_session "boom").
  - discriminate.
  - reflexivity.
Defined.

(** C5 as stated fails: under Emoji Translator the bot turn appended
    after a model failure is the translation of the user message, and
    under ShakespeareBot the error text is rewritten; neither is the
    error prefix followed by the message of the exception. *)
Lemma model_failure_text_counterexample :
  (exists st',
      on_submit failing_env EmojiTranslator 6 "hi" initial_session = Ok st' /\
      map turn_text (bot_turns (history st')) = ["hi"]) /\
  (exists st',
      on_submit failing_env ShakespeareBot 6 "hi" initial_session = Ok st' /\
      map turn_text (bot_turns (history st')) =
        ["(model error) boom, prithee."]) /\
  "hi" <> "(model error) boom" /\
  "(model error) boom, prithee." <> "(model error) boom".
Proof.
  split; [eexists; split; reflexivity|].
  split; [eexists; split; reflexivity|].
  split; discriminate.
Qed.

(** C10: when the model call returns with an empty list of generated
    responses, the raw bot text is "I have nothing to say."; it is then
    post-processed by the persona, and the run appends the user turn and
    exactly one bot turn. *)
Theorem empty_responses_fallback
        (e : env) (p : persona) (max_history : Z) (user_input : string)
        (st : session) :
  user_input <> "" ->
  conv_pipeline e (prompt_of_run e p max_history user_input st)
    = Responded [] ->
  bot_raw e (prompt_of_run e p max_history user_input st)
    = "I have nothing to say." /\
  exists display st',
    displayed e p user_input "I have nothing to say." display /\
    on_submit e p max_history user_input st = Ok st' /\
    history st' = (history st ++ [(user, user_input, timestamp_user e);
                                  (bot, display, timestamp_bot e)])%list /\
    List.length (bot_turns (history st')) =
      S (List.length (bot_turns (history st))).
Proof.
  intros Hne Hempty.
  assert (Hraw : bot_raw e (prompt_of_run e p max_history user_input st)
                 = "I have nothing to say.")
    by (unfold bot_raw; now rewrite Hempty).
  split; [exact Hraw|].
  destruct (bot_display_returns e p user_input "I have nothing to say.")
    as (display & Hd & Hcase).
  exists display, (after_run e p max_history user_input st display).
  split; [exact Hcase|].
  split; [apply on_submit_eq; [exact Hne | rewrite Hraw; exact Hd]|].
  split; [reflexivity | apply bot_turns_after_run].
Qed.

Lemma empty_responses_fallback_witness :
  bot_raw silent_env (prompt_of_run silent_env Neutral 6 "hi" initial_session)
    = "I have nothing to say." /\
  exists display st',
    display = "I have nothing to say." /\
    on_submit silent_env Neutral 6 "hi" initial_session = Ok st' /\
    history st' = [(user, "hi", "2024-01-01 10:00:00");
                   (bot, display, "2024-01-01 10:00:01")] /\
    List.length (bot_turns (history st')) = 1.
Proof.
  apply (empty_responses_fallback silent_env Neutral 6 "hi" initial_session).
  - discriminate.
  - reflexivity.
Defined.

(** C2 on the code: the run appends the user turn to the history before
    the prompt is assembled from it, so with an empty log before the
    submission, persona Neutral and the message "hi", the message is
    rendered as a history line and again in the final cue; the prompt is
    not the instruction line and the final cue alone. *)
Theorem first_message_prompt (e : env) (max_history : Z) :
  (1 <= max_history <= 20)%Z ->
  exists st',
    on_submit e Neutral max_history "hi" initial_session = Ok st' /\
    conv st' = Some (nl ++ "User: hi" ++ nl ++ nl ++ "User: hi" ++ nl ++ "Bot:") /\
    conv st' <> Some (nl ++ "User: hi" ++ nl ++ "Bot:").
Proof.
  intros Hm.
  assert (Hw : turns_to_include [(user, "hi", timestamp_user e)] max_history
               = [(user, "hi", timestamp_user e)]).
  { destruct (turns_to_include_suffix max_history
                [(user, "hi", timestamp_user e)]) as [-> _]; [lia|].
    destruct (Z.to_nat max_history) eqn:K; [lia | reflexivity]. }
  assert (Hp : prompt_of_run e Neutral max_history "hi" initial_session
               = nl ++ "User: hi" ++ nl ++ nl ++ "User: hi" ++ nl ++ "Bot:").
  { unfold prompt_of_run, history_with_user, initial_session, model_input.
    cbn [history app]. rewrite prompt_parts_eq, Hw. reflexivity. }
  exists (after_run e Neutral max_history "hi" initial_session
                    (bot_raw e (prompt_of_run e Neutral max_history "hi"
                                              initial_session))).
  split; [|split].
  - apply on_submit_eq; [discriminate | reflexivity].
  - cbn [conv after_run]. now rewrite Hp.
  - cbn [conv after_run]. rewrite Hp. discriminate.
Qed.

Lemma first_message_prompt_witness :
  exists st',
    on_submit echo_env Neutral 6 "hi" initial_session = Ok st' /\
    conv st' = Some (nl ++ "User: hi" ++ nl ++ nl ++ "User: hi" ++ nl ++ "Bot:") /\
    conv st' <> Some (nl ++ "User: hi" ++ nl ++ "Bot:").
Proof.
  apply (first_message_prompt echo_env 6). lia.
Defined.

(** C3 on the code: with ten user/bot pairs in the log before the
    submission and [max_history = 2], the window is taken after the new
    user turn is appended: it holds the last three entries of the log and
    the new message, so the fourth-last entry "u9" is not rendered and
    the new message is rendered twice. *)
Theorem window_after_ten_pairs (e : env) :
  turns_to_include
    (history_with_user e "new" {| history := ten_pairs; conv := None |}) 2 =
    [(bot, "b9", "t"); (user, "u10", "t"); (bot, "b10", "t");
     (user, "new", timestamp_user e)] /\
  slice_from_index (-4) ten_pairs =
    [(user, "u9", "t"); (bot, "b9", "t"); (user, "u10", "t"); (bot, "b10", "t")] /\
  exists st',
    on_submit e Neutral 2 "new" {| history := ten_pairs; conv := None |} = Ok st' /\
    conv st' = Some (join nl [ ""; "Bot: b9" ++ nl; "User: u10" ++ nl;
                               "Bot: b10" ++ nl; "User: new" ++ nl;
                               "User: new" ++ nl ++ "Bot:" ]) /\
    ~ In ("User: u9" ++ nl)
         (prompt_parts
            (history_with_user e "new" {| history := ten_pairs; conv := None |})
            Neutral 2 "new").
Proof.
  split; [reflexivity|]. split; [reflexivity|].
  eexists. split; [|split].
  - unfold on_submit. cbn [bot_display Py.bind]. reflexivity.
  - reflexivity.
  - rewrite prompt_parts_eq. cbv. intros H.
    repeat (destruct H as [H|H]; [discriminate H|]). exact H.
Qed.

(* ================================================================== *)
(** ** Further properties of the transforms *)

Section MoreStrFacts.

Lemma lower_char_not_upper (c : ascii) : isupper (lower_char c) = false.
Proof. destruct c as [[] [] [] [] [] [] [] []]; reflexivity. Qed.

Lemma upper_char_not_lower (c : ascii) : islower (upper_char c) = false.
Proof. destruct c as [[] [] [] [] [] [] [] []]; reflexivity. Qed.

Lemma lower_no_upper (s : string) : no_upper (lower s) = true.
Proof.
  induction s as [|c s IH]; [reflexivity|].
  unfold no_upper in *. simpl. now rewrite lower_char_not_upper, IH.
Qed.

Lemma all_chars_tail p (c : ascii) (s : string) :
  all_chars p (String c s) = true -> all_chars p s = true.
Proof. simpl. intros H. now apply andb_prop in H. Qed.

(** [replace] brings in no character that the text and the replacement
    do not have. *)
Lemma replace_scan_all p (old new : string) (k : nat) (s : string) :
  all_chars p new = true -> all_chars p s = true ->
  all_chars p (replace_scan old new k s) = true.
Proof.
  intros Hnew. revert k. induction s as [|c s IH]; intros k Hs; [reflexivity|].
  pose proof (all_chars_tail _ _ _ Hs) as Hs'.
  cbn [replace_scan]. destruct k as [|k]; [|now apply IH].
  destruct (startswith old (String c s)).
  - rewrite all_chars_append, Hnew. now apply IH.
  - simpl in Hs |- *. apply andb_prop in Hs as [Hc _].
    rewrite Hc. now apply IH.
Qed.

Lemma replace_empty_all p (new s : string) :
  all_chars p new = true -> all_chars p s = true ->
  all_chars p (replace_empty new s) = true.
Proof.
  intros Hnew. induction s as [|c s IH]; intros Hs; [exact Hnew|].
  simpl in Hs |- *. apply andb_prop in Hs as [Hc Hs].
  rewrite all_chars_append, Hnew. simpl. now rewrite Hc, IH.
Qed.

Lemma replace_all p (old new s : string) :
  all_chars p new = true -> all_chars p s = true ->
  all_chars p (replace old new s) = true.
Proof.
  intros Hnew Hs. destruct old; simpl.
  - now apply replace_empty_all.
  - now apply replace_scan_all.
Qed.

Lemma lstrip_by_all p q (s : string) :
  all_chars p s = true -> all_chars p (lstrip_by q s) = true.
Proof.
  intros H. destruct (lstrip_by_spec q s) as (pre & E & _ & _).
  rewrite E, all_chars_append in H. now apply andb_prop in H.
Qed.

Lemma rstrip_by_all p q (s : string) :
  all_chars p s = true -> all_chars p (rstrip_by q s) = true.
Proof.
  intros H. destruct (rstrip_by_spec q s) as (suf & E & _ & _).
  rewrite E, all_chars_append in H. now apply andb_prop in H.
Qed.

Lemma slice_from_length_append (a b : string) :
  slice_from (String.length a) (a ++ b) = b.
Proof. induction a as [|c a IH]; simpl; [now destruct b | exact IH]. Qed.

(** A text ends with what was appended to it. *)
Lemma endswith_append (t suf : string) : endswith suf (t ++ suf) = true.
Proof.
  unfold endswith. rewrite length_append.
  replace (String.length t + String.length suf - String.length suf)
    with (String.length t) by lia.
  rewrite slice_from_length_append, String.eqb_refl.
  rewrite andb_true_r. apply Nat.leb_le. lia.
Qed.

Lemma endswith_nonempty (suf s : string) :
  suf <> "" -> endswith suf s = true -> s <> "".
Proof.
  intros Hsuf H ->. unfold endswith in H. simpl in H.
  destruct suf; [contradiction | discriminate].
Qed.

End MoreStrFacts.

Section ShakespeareFacts.

Lemma shakespeare_body_no_upper (text : string) :
  no_upper (shakespeare_body text) = true.
Proof.
  unfold shakespeare_body, strip, no_upper.
  apply rstrip_by_all, lstrip_by_all.
  cbn [fold_left SHAKESPEARE_REPLACEMENTS fst snd].
  repeat (apply replace_all; [reflexivity|]).
  change (all_chars (fun c => negb (isupper c)) (" " ++ lower text ++ " "))
    with (no_upper (" " ++ lower text ++ " ")).
  unfold no_upper. rewrite !all_chars_append.
  fold (no_upper (lower text)). now rewrite lower_no_upper.
Qed.

(** What [to_shakespeare] returns, in terms of the trimmed text. *)
Lemma to_shakespeare_eq (text : string) :
  to_shakespeare text =
  Ok (let t := match shakespeare_body text with
               | EmptyString => EmptyString
               | String c t' => String (upper_char c) t'
               end in
      if endswith_any ["."; "!"; "?"] t then t else t ++ ", prithee.").
Proof.
  unfold to_shakespeare. rewrite capitalize_first_eq.
  cbv beta iota zeta delta [Py.bind].
  now destruct (endswith_any _ _).
Qed.

End ShakespeareFacts.

(** X1: whatever the input, [to_shakespeare] returns a non-empty text
    that ends in '.', '!' or '?'. *)
Theorem to_shakespeare_ends_in_punctuation (text : string) :
  exists t,
    to_shakespeare text = Ok t /\
    t <> "" /\
    endswith_any ["."; "!"; "?"] t = true.
Proof.
  rewrite to_shakespeare_eq. cbv zeta.
  set (t := match shakespeare_body text with
            | EmptyString => EmptyString
            | String c t' => String (upper_char c) t'
            end).
  destruct (endswith_any ["."; "!"; "?"] t) eqn:E.
  - exists t. repeat split; [|exact E].
    intros ->. discriminate E.
  - exists (t ++ ", prithee."). repeat split.
    + destruct t; discriminate.
    + change ", prithee." with (", prithee" ++ ".").
      rewrite <- append_assoc. cbn [endswith_any existsb].
      now rewrite endswith_append.
Qed.

(** X2: on an ASCII input, the text [to_shakespeare] returns begins
    with a character that is not a lowercase letter and has no capital
    letter after it: the capitals of the input are lost, and an ASCII
    input that differs from it in case only gives the same text. *)
Theorem to_shakespeare_capitals (text : string) :
  is_ascii text = true ->
  (exists c rest,
      to_shakespeare text = Ok (String c rest) /\
      islower c = false /\
      no_upper rest = true) /\
  (forall other,
      is_ascii other = true ->
      lower other = lower text ->
      to_shakespeare other = to_shakespeare text).
Proof.
  intros _. split.
  - rewrite to_shakespeare_eq. cbv zeta.
    pose proof (shakespeare_body_no_upper text) as Hb.
    destruct (shakespeare_body text) as [|c t'].
    + exists ","%char, " prithee.". repeat split.
    + apply all_chars_tail in Hb.
      destruct (endswith_any _ _).
      * exists (upper_char c), t'. repeat split; [|exact Hb].
        apply upper_char_not_lower.
      * exists (upper_char c), (t' ++ ", prithee."). repeat split.
        -- apply upper_char_not_lower.
        -- unfold no_upper in *. now rewrite all_chars_append, Hb.
  - intros other _ H. unfold to_shakespeare, shakespeare_body. now rewrite H.
Qed.

Lemma to_shakespeare_capitals_witness :
  is_ascii "hello There, I AM Bob" = true /\
  (exists c rest,
      to_shakespeare "hello There, I AM Bob" = Ok (String c rest) /\
      islower c = false /\
      no_upper rest = true) /\
  to_shakespeare "HELLO there, i am bob" = to_shakespeare "hello There, I AM Bob".
Proof.
  split; [reflexivity|].
  destruct (to_shakespeare_capitals "hello There, I AM Bob" eq_refl)
    as [Hshape Hcase].
  split; [exact Hshape|].
  apply Hcase; reflexivity.
Defined.

Section MoreStripFacts.

Variable p : ascii -> bool.

Lemma lstrip_by_run (pre s : string) :
  all_chars p pre = true -> lstrip_by p (pre ++ s) = lstrip_by p s.
Proof.
  induction pre as [|c pre IH]; intros H; [reflexivity|].
  simpl in H |- *. apply andb_prop in H as [Hc Hpre].
  rewrite Hc. now apply IH.
Qed.

Lemma lstrip_by_clear (s : string) :
  (forall c, first_char s = Some c -> p c = false) -> lstrip_by p s = s.
Proof.
  destruct s as [|c s]; intros H; [reflexivity|].
  simpl. now rewrite (H c eq_refl).
Qed.

Lemma rstrip_by_only (suf : string) :
  all_chars p suf = true -> rstrip_by p suf = "".
Proof.
  induction suf as [|c suf IH]; intros H; [reflexivity|].
  simpl in H |- *. apply andb_prop in H as [Hc Hsuf].
  now rewrite IH, Hc.
Qed.

Lemma rstrip_by_run (s suf : string) :
  all_chars p suf = true -> rstrip_by p (s ++ suf) = rstrip_by p s.
Proof.
  intros H. induction s as [|c s IH]; simpl.
  - now apply rstrip_by_only.
  - now rewrite IH.
Qed.

Lemma rstrip_by_clear (s : string) :
  (forall c, last_char s = Some c -> p c = false) -> rstrip_by p s = s.
Proof.
  induction s as [|c s IH]; intros H; [reflexivity|].
  destruct s as [|d s].
  - simpl. now rewrite (H c eq_refl).
  - change (rstrip_by p (String c (String d s)))
      with (match rstrip_by p (String d s) with
            | EmptyString => if p c then EmptyString else String c EmptyString
            | r => String c r
            end).
    rewrite IH; [reflexivity|]. intros x Hx. apply H. exact Hx.
Qed.

End MoreStripFacts.

Section MoreEmojiFacts.

Lemma first_char_append (k s : string) :
  k <> "" -> first_char (k ++ s) = first_char k.
Proof. destruct k; [contradiction | reflexivity]. Qed.

Lemma clean_word_inv (k : string) :
  clean_word k = true ->
  k <> "" /\ ends_clear is_punct k.
Proof.
  unfold clean_word, ends_clear. intros H.
  destruct (first_char k) as [a|] eqn:Ha; [|discriminate].
  destruct (last_char k) as [b|] eqn:Hb; [|discriminate].
  apply andb_prop in H as [H1 H2].
  apply negb_true_iff in H1, H2.
  split; [intros ->; discriminate|].
  split; intros c [= <-]; assumption.
Qed.

(** A clean word with punctuation around it is stripped to the word. *)
Lemma strip_chars_clean (pre k suf : string) :
  clean_word k = true ->
  all_chars is_punct pre = true -> all_chars is_punct suf = true ->
  strip_chars ".,!?" (pre ++ k ++ suf) = k.
Proof.
  intros Hk Hpre Hsuf. apply clean_word_inv in Hk as (Hne & Hf & Hl).
  unfold strip_chars. fold is_punct.
  change (fun c => mem c ".,!?") with is_punct.
  rewrite lstrip_by_run by exact Hpre.
  rewrite lstrip_by_clear
    by (intros c Hc; rewrite first_char_append in Hc by exact Hne; now apply Hf).
  rewrite rstrip_by_run by exact Hsuf.
  now apply rstrip_by_clear.
Qed.

Lemma dict_get_in_key (d : dict) (k a : string) :
  dict_get d k = Some a -> In (k, a) d.
Proof.
  induction d as [|[k' v] d IH]; simpl; [discriminate|].
  destruct (String.eqb_spec k k') as [->|Hne].
  - intros [= ->]. now left.
  - intros H. right. now apply IH.
Qed.

Lemma emoji_keys_clean (k a : string) :
  dict_get EMOJI_MAP k = Some a -> clean_word k = true.
Proof.
  intros H. apply dict_get_in_key in H.
  assert (Hall : forallb (fun kv => clean_word (fst kv)) EMOJI_MAP = true)
    by reflexivity.
  rewrite forallb_forall in Hall. exact (Hall _ H).
Qed.

Lemma split_spaces (s : string) :
  all_chars isspace s = true -> split s = [].
Proof.
  unfold split. induction s as [|c s IH]; intros H; [reflexivity|].
  simpl in H |- *. apply andb_prop in H as [Hc Hs].
  rewrite Hc. now apply IH.
Qed.

Lemma split_token (w : string) : is_token w = true -> split w = [w].
Proof.
  intros H. change w with (join " " [w]) at 1.
  apply split_join. now constructor.
Qed.

Variable emojize : string -> string.

Lemma translate_unmapped (words : list string) :
  forallb (fun w => negb (dict_contains EMOJI_MAP (emoji_key w))) words = true ->
  map (translate_token emoji_key emojize) words = words.
Proof.
  induction words as [|w words IH]; intros H; [reflexivity|].
  simpl in H. apply andb_prop in H as [Hw Hrest].
  simpl. rewrite IH by exact Hrest. f_equal.
  unfold translate_token. unfold dict_contains in Hw.
  now destruct (dict_get EMOJI_MAP (emoji_key w)).
Qed.

(** A translated token is not translated again, when no glyph is a word
    of the map. *)
Lemma translate_token_twice (w : string) :
  glyphs_unmapped emojize = true ->
  dict_contains EMOJI_MAP
    (emoji_key (translate_token emoji_key emojize w)) = false.
Proof.
  intros Hg. unfold translate_token.
  destruct (dict_get EMOJI_MAP (emoji_key w)) as [a|] eqn:E.
  - apply dict_get_in in E as [k' Hin].
    unfold glyphs_unmapped in Hg. rewrite forallb_forall in Hg.
    specialize (Hg _ Hin). now apply negb_true_iff in Hg.
  - unfold dict_contains. now rewrite E.
Qed.

End MoreEmojiFacts.

(** X3: [to_emoji] of an input made of whitespace only, the empty input
    included, is the empty text. *)
Theorem to_emoji_blank (emojize : string -> string) (text : string) :
  all_chars isspace text = true -> to_emoji emojize text = Ok "".
Proof.
  intros H. rewrite to_emoji_eq. unfold translation.
  now rewrite split_spaces.
Qed.

Lemma to_emoji_blank_witness :
  to_emoji alias_text (" " ++ nl ++ "  ") = Ok "".
Proof.
  apply (to_emoji_blank alias_text (" " ++ nl ++ "  ")). reflexivity.
Defined.

(** X4: when no word of the input has its key in the map, [to_emoji]
    only normalises the whitespace: it returns the words of the input
    joined by single spaces. *)
Theorem to_emoji_normalises_whitespace
        (emojize : string -> string) (text : string) :
  forallb (fun w => negb (dict_contains EMOJI_MAP (emoji_key w)))
          (split text) = true ->
  to_emoji emojize text = Ok (join " " (split text)).
Proof.
  intros H. rewrite to_emoji_eq. unfold translation.
  now rewrite translate_unmapped.
Qed.

Lemma to_emoji_normalises_whitespace_witness :
  to_emoji alias_text ("  Good   morning," ++ nl ++ "world ") =
  Ok "Good morning, world".
Proof.
  apply (to_emoji_normalises_whitespace
           alias_text ("  Good   morning," ++ nl ++ "world ")).
  reflexivity.
Defined.

(** X5: a word of the map is found whatever its casing and whatever
    punctuation of ".,!?" stands before and after it; the token is then
    replaced by the glyph alone, the punctuation is dropped. *)
Theorem to_emoji_mapped_word
        (emojize : string -> string) (w k a pre suf : string) :
  dict_get EMOJI_MAP k = Some a ->
  is_token w = true ->
  lower w = pre ++ k ++ suf ->
  all_chars is_punct pre = true ->
  all_chars is_punct suf = true ->
  to_emoji emojize w = Ok (emojize a).
Proof.
  intros Hk Hw Hlow Hpre Hsuf.
  rewrite to_emoji_eq. unfold translation.
  rewrite split_token by exact Hw.
  cbn [map join]. unfold translate_token, emoji_key.
  rewrite Hlow, strip_chars_clean; try assumption.
  - now rewrite Hk.
  - eapply emoji_keys_clean. exact Hk.
Qed.

Lemma to_emoji_mapped_word_witness :
  to_emoji alias_text "...Thanks!!" = Ok ":pray:".
Proof.
  apply (to_emoji_mapped_word alias_text "...Thanks!!" "thanks" ":pray:"
                              "..." "!!"); reflexivity.
Defined.

(** X6: when every glyph is a token and none is a word of the map,
    [to_emoji] is idempotent: applied to its own output it returns the
    output unchanged. *)
Theorem to_emoji_idempotent (emojize : string -> string) (text : string) :
  glyphs_are_tokens emojize = true ->
  glyphs_unmapped emojize = true ->
  exists out,
    to_emoji emojize text = Ok out /\ to_emoji emojize out = Ok out.
Proof.
  intros Htok Hun. exists (join " " (translation emojize text)).
  split; [apply to_emoji_eq|].
  rewrite to_emoji_eq. f_equal. f_equal.
  unfold translation at 1.
  rewrite split_to_emoji_output by exact Htok.
  apply translate_unmapped. unfold translation.
  apply forallb_forall. intros x Hx.
  apply in_map_iff in Hx as (w & <- & _).
  apply negb_true_iff. now apply translate_token_twice.
Qed.

Lemma to_emoji_idempotent_witness :
  exists out,
    to_emoji alias_text "I  love my  cat!" = Ok out /\
    to_emoji alias_text out = Ok out.
Proof.
  apply (to_emoji_idempotent alias_text "I  love my  cat!"); reflexivity.
Defined.

Section RoastFacts.

Lemma short_user_length (x : string) : String.length (short_user x) <= 33.
Proof.
  unfold short_user. destruct (30 <? String.length x) eqn:E.
  - rewrite length_append, length_slice_to.
    change (String.length "...") with 3. lia.
  - apply Nat.ltb_ge in E. lia.
Qed.

Lemma roast_templates_frames :
  Forall (fun t => exists pre post,
              t = pre ++ "{u}" ++ post /\
              brace_free pre = true /\ brace_free post = true /\
              String.length pre + String.length post <= ROAST_FRAME_MAX)
         ROAST_TEMPLATES.
Proof.
  repeat constructor.
  - exists "Oh look, ",
      ". If I wanted to hear from someone like you, I'd ask my Wi-Fi to drop connection.".
    repeat split. unfold ROAST_FRAME_MAX. simpl. lia.
  - exists "",
      ", you're like a software update. Whenever I see you, I think 'Not now.'".
    repeat split. unfold ROAST_FRAME_MAX. simpl. lia.
  - exists "If wit were RAM, ", ", you'd still be buffering.".
    repeat split. unfold ROAST_FRAME_MAX. simpl. lia.
  - exists "You're proof that evolution can go in reverse, ", ".".
    repeat split. unfold ROAST_FRAME_MAX. simpl. lia.
Qed.

End RoastFacts.

(** X7: however long the user text is, the roast has at most 123
    characters: the longest template without its placeholder has 90, and
    the user text enters with at most 33. *)
Theorem make_roast_length (r : nat) (x : string) :
  exists roast,
    make_roast r x = Ok roast /\
    String.length roast <= ROAST_FRAME_MAX + 33.
Proof.
  unfold make_roast.
  destruct (choice_in ROAST_TEMPLATES r) as (t & Hin & ->); [discriminate|].
  cbv beta iota delta [Py.bind].
  pose proof roast_templates_frames as Hall.
  rewrite Forall_forall in Hall.
  destruct (Hall t Hin) as (pre & post & -> & Hpre & Hpost & Hlen).
  rewrite format_fill by assumption.
  eexists. split; [reflexivity|].
  rewrite !length_append.
  pose proof (short_user_length x). lia.
Qed.

(* ================================================================== *)
(** ** Further properties of the prompt and of the session *)

Section PromptFacts.

Lemma join_cons (sep x : string) (l : list string) :
  l <> [] -> join sep (x :: l) = x ++ sep ++ join sep l.
Proof. destruct l; [contradiction | reflexivity]. Qed.

Lemma join_rendered (ts : list turn) (cue : string) :
  join nl (map render_turn ts ++ [cue]) = rendered_window ts cue.
Proof.
  induction ts as [|t ts IH]; [reflexivity|].
  cbn [map app rendered_window].
  rewrite join_cons, IH; [reflexivity|].
  destruct (map render_turn ts); discriminate.
Qed.

Lemma rendered_window_app (a b : list turn) (cue : string) :
  rendered_window (a ++ b) cue = rendered_window a (rendered_window b cue).
Proof.
  induction a as [|t a IH]; [reflexivity|].
  cbn [app rendered_window]. now rewrite IH.
Qed.

Lemma rendered_window_front (ts : list turn) (cue : string) :
  exists front, rendered_window ts cue = front ++ cue.
Proof.
  induction ts as [|t ts (front & IH)].
  - now exists "".
  - exists (render_turn t ++ nl ++ front).
    cbn [rendered_window]. rewrite IH.
    now rewrite !append_assoc.
Qed.

Lemma startswith_append (a b : string) : startswith a (a ++ b) = true.
Proof.
  induction a as [|c a IH]; [reflexivity|].
  simpl. now rewrite Ascii.eqb_refl, IH.
Qed.

(** The prompt in closed form. *)
Lemma model_input_eq (h : list turn) (p : persona) (max_history : Z)
      (user_input : string) :
  model_input h p max_history user_input =
  persona_instruction p ++ nl ++
  rendered_window (turns_to_include h max_history) (final_cue user_input).
Proof.
  unfold model_input. rewrite prompt_parts_eq.
  rewrite join_cons by (destruct (map render_turn _); discriminate).
  now rewrite join_rendered.
Qed.

(** In a run the window ends with the turn that was just appended. *)
Lemma turns_to_include_last (h : list turn) (t : turn) (max_history : Z) :
  (1 <= max_history)%Z ->
  exists w, turns_to_include (h ++ [t]) max_history = (w ++ [t])%list.
Proof.
  intros Hm.
  destruct (turns_to_include_suffix max_history (h ++ [t]) Hm) as [-> _].
  rewrite skipn_app, length_app. cbn [List.length].
  replace (List.length h + 1 - 2 * Z.to_nat max_history - List.length h)
    with 0 by lia.
  now eexists.
Qed.

End PromptFacts.

Section SessionFacts.

Lemma alternating_app (h t : list turn) :
  alternating h = true -> alternating (h ++ t) = alternating t.
Proof.
  revert h. fix IH 1. intros [|[[r1 u] t1] [|[[r2 d] t2] h']].
  - reflexivity.
  - destruct r1; discriminate.
  - destruct r1, r2; try discriminate.
    cbn [alternating app]. intros H.
    apply andb_prop in H as [Hu Hh]. rewrite Hu. cbn [andb].
    now apply IH.
Qed.

Lemma alternating_length (h : list turn) :
  alternating h = true ->
  List.length h = 2 * List.length (bot_turns h).
Proof.
  revert h. fix IH 1. intros [|[[r1 u] t1] [|[[r2 d] t2] h']].
  - reflexivity.
  - destruct r1; discriminate.
  - destruct r1, r2; try discriminate.
    cbn [alternating]. intros H. apply andb_prop in H as [_ Hh].
    specialize (IH h' Hh).
    unfold bot_turns in *. cbn [filter turn_role fst List.length].
    rewrite IH. lia.
Qed.

Lemma session_ok_initial : session_ok initial_session.
Proof. split; [reflexivity | now split]. Qed.

Lemma run_keeps_session_ok (ev : event) (st : session) :
  session_ok st -> exists st', run ev st = Ok st' /\ session_ok st'.
Proof.
  intros [Halt Hconv]. destruct ev as [|e p max_history user_input].
  - exists initial_session. split; [reflexivity | apply session_ok_initial].
  - destruct user_input as [|c u] eqn:Eu.
    + exists st. split; [reflexivity | now split].
    + rewrite <- Eu.
      destruct (bot_display_returns e p user_input
                  (bot_raw e (prompt_of_run e p max_history user_input st)))
        as (display & Hd & _).
      exists (after_run e p max_history user_input st display).
      split.
      * cbn [run]. apply on_submit_eq; [rewrite Eu; discriminate | exact Hd].
      * unfold session_ok, after_run. cbn [history conv]. split.
        -- rewrite alternating_app by exact Halt.
           rewrite Eu. reflexivity.
        -- split; [discriminate|].
           intros H. now apply app_eq_nil in H as [_ H].
Qed.

Lemma run_all_keeps_session_ok (evs : list event) (st : session) :
  session_ok st -> exists st', run_all evs st = Ok st' /\ session_ok st'.
Proof.
  revert st. induction evs as [|ev evs IH]; intros st Hst.
  - now exists st.
  - destruct (run_keeps_session_ok ev st Hst) as (st1 & Hrun & Hst1).
    destruct (IH st1 Hst1) as (st' & Hall & Hst').
    exists st'. split; [|exact Hst'].
    cbn [run_all]. now rewrite Hrun.
Qed.

End SessionFacts.

(** X8: the prompt is the instruction line of the persona, the
    separator, every turn of the window rendered as "User: text" or
    "Bot: text" and followed by an empty line, and the final cue; it
    begins with the instruction line and ends with the cue. *)
Theorem model_input_shape (h : list turn) (p : persona) (max_history : Z)
        (user_input : string) :
  model_input h p max_history user_input =
    persona_instruction p ++ nl ++
    rendered_window (turns_to_include h max_history) (final_cue user_input) /\
  startswith (persona_instruction p)
             (model_input h p max_history user_input) = true /\
  endswith ("User: " ++ user_input ++ nl ++ "Bot:")
           (model_input h p max_history user_input) = true.
Proof.
  rewrite model_input_eq. split; [reflexivity|].
  split; [apply startswith_append|].
  change ("User: " ++ user_input ++ nl ++ "Bot:") with (final_cue user_input).
  destruct (rendered_window_front (turns_to_include h max_history)
                                  (final_cue user_input)) as [front ->].
  rewrite <- !append_assoc. apply endswith_append.
Qed.

(** X9: for a [max_history] of the slider, the window is the end of the
    log it is taken from, the order kept, and holds [2 * max_history]
    turns, or the whole log when that is shorter. *)
Theorem window_is_bounded_suffix (h : list turn) (max_history : Z) :
  (1 <= max_history)%Z ->
  exists dropped,
    h = (dropped ++ turns_to_include h max_history)%list /\
    List.length (turns_to_include h max_history) =
      Nat.min (2 * Z.to_nat max_history) (List.length h).
Proof.
  intros Hm.
  destruct (turns_to_include_suffix max_history h Hm) as [E Hlen].
  exists (firstn (List.length h - 2 * Z.to_nat max_history) h).
  split; [|exact Hlen].
  rewrite E. symmetry. apply firstn_skipn.
Qed.

Lemma window_is_bounded_suffix_witness :
  exists dropped,
    ten_pairs = (dropped ++ turns_to_include ten_pairs 3)%list /\
    List.length (turns_to_include ten_pairs 3) = 6.
Proof.
  apply (window_is_bounded_suffix ten_pairs 3). lia.
Defined.

(** X10: in every run with a non-empty message and a [max_history] of
    the slider, the prompt recorded for the model ends with the message
    rendered as a turn of the window, an empty line, and the message
    again in the final cue. *)
Theorem run_prompt_repeats_message
        (e : env) (p : persona) (max_history : Z) (user_input : string)
        (st : session) :
  user_input <> "" ->
  (1 <= max_history)%Z ->
  exists st' front,
    on_submit e p max_history user_input st = Ok st' /\
    conv st' = Some (front ++ "User: " ++ user_input ++ nl ++ nl ++
                     "User: " ++ user_input ++ nl ++ "Bot:").
Proof.
  intros Hne Hm.
  destruct (bot_display_returns e p user_input
              (bot_raw e (prompt_of_run e p max_history user_input st)))
    as (display & Hd & _).
  assert (Hlast : exists w,
             turns_to_include (history_with_user e user_input st) max_history
             = (w ++ [(user, user_input, timestamp_user e)])%list)
    by (unfold history_with_user; now apply turns_to_include_last).
  destruct Hlast as [w Hw].
  destruct (rendered_window_front w
              (render_turn (user, user_input, timestamp_user e) ++ nl ++
               final_cue user_input)) as [front Hfront].
  exists (after_run e p max_history user_input st display),
         (persona_instruction p ++ nl ++ front).
  split; [now apply on_submit_eq|].
  unfold after_run. cbn [conv]. f_equal.
  unfold prompt_of_run.
  rewrite model_input_eq, Hw, rendered_window_app.
  cbn [rendered_window]. rewrite Hfront.
  unfold render_turn, final_cue. cbn [turn_role turn_text fst snd].
  now rewrite !append_assoc.
Qed.

Lemma run_prompt_repeats_message_witness :
  exists st' front,
    on_submit echo_env RoastBot 1 "hey" {| history := ten_pairs; conv := None |}
      = Ok st' /\
    conv st' = Some (front ++ "User: hey" ++ nl ++ nl ++
                     "User: hey" ++ nl ++ "Bot:").
Proof.
  apply (run_prompt_repeats_message
           echo_env RoastBot 1 "hey" {| history := ten_pairs; conv := None |}).
  - discriminate.
  - lia.
Defined.

(** X11: a run never raises and never touches the turns already in the
    log: an empty input leaves the session as it is, any other input
    appends exactly two turns and records the prompt. *)
Theorem on_submit_appends
        (e : env) (p : persona) (max_history : Z) (user_input : string)
        (st : session) :
  exists st' added,
    on_submit e p max_history user_input st = Ok st' /\
    history st' = (history st ++ added)%list /\
    match user_input with
    | EmptyString => st' = st /\ added = []
    | String _ _ =>
        List.length added = 2 /\
        conv st' = Some (prompt_of_run e p max_history user_input st)
    end.
Proof.
  destruct user_input as [|c u] eqn:Eu.
  - exists st, []. cbn [on_submit]. rewrite app_nil_r. repeat split.
  - rewrite <- Eu.
    destruct (bot_display_returns e p user_input
                (bot_raw e (prompt_of_run e p max_history user_input st)))
      as (display & Hd & _).
    exists (after_run e p max_history user_input st display),
           [(user, user_input, timestamp_user e);
            (bot, display, timestamp_bot e)].
    split; [apply on_submit_eq; [rewrite Eu; discriminate | exact Hd]|].
    split; [reflexivity|]. rewrite Eu. split; reflexivity.
Qed.

(** X12: whatever sequence of clears and submissions a session goes
    through from its start, no run raises, and in the session reached the
    log is made of user/bot pairs in this order, every user text is not
    empty, there are as many bot turns as user turns, and a prompt is
    recorded exactly when the log is not empty. *)
Theorem sessions_alternate (evs : list event) :
  exists st,
    run_all evs initial_session = Ok st /\
    alternating (history st) = true /\
    List.length (history st) = 2 * List.length (bot_turns (history st)) /\
    (conv st = None <-> history st = []).
Proof.
  destruct (run_all_keeps_session_ok evs initial_session session_ok_initial)
    as (st & Hrun & Halt & Hconv).
  exists st. split; [exact Hrun|]. split; [exact Halt|].
  split; [now apply alternating_length | exact Hconv].
Qed.

(** X13: under Emoji Translator nothing of the model reaches the log:
    two runs that differ in the model (its answer or its failure) and in
    the random draw only end with the same history. *)
Theorem emoji_run_ignores_model
        (e1 e2 : env) (max_history : Z) (user_input : string) (st : session) :
  emojize e1 = emojize e2 ->
  timestamp_user e1 = timestamp_user e2 ->
  timestamp_bot e1 = timestamp_bot e2 ->
  exists st1 st2,
    on_submit e1 EmojiTranslator max_history user_input st = Ok st1 /\
    on_submit e2 EmojiTranslator max_history user_input st = Ok st2 /\
    history st1 = history st2.
Proof.
  intros Hemo Hu Hb.
  destruct user_input as [|c u] eqn:Eu.
  - exists st, st. repeat split.
  - rewrite <- Eu.
    assert (Hne : user_input <> "") by (rewrite Eu; discriminate).
    destruct (bot_display_returns e1 EmojiTranslator user_input
                (bot_raw e1 (prompt_of_run e1 EmojiTranslator max_history
                                           user_input st)))
      as (d1 & Hd1 & Hc1).
    destruct (bot_display_returns e2 EmojiTranslator user_input
                (bot_raw e2 (prompt_of_run e2 EmojiTranslator max_history
                                           user_input st)))
      as (d2 & Hd2 & Hc2).
    exists (after_run e1 EmojiTranslator max_history user_input st d1),
           (after_run e2 EmojiTranslator max_history user_input st d2).
    split; [now apply on_submit_eq|].
    split; [now apply on_submit_eq|].
    unfold displayed in Hc1, Hc2. rewrite Hemo, Hc2 in Hc1.
    injection Hc1 as <-.
    unfold after_run. cbn [history]. now rewrite Hu, Hb.
Qed.

Lemma emoji_run_ignores_model_witness :
  exists st1 st2,
    on_submit echo_env EmojiTranslator 6 "I love my cat" initial_session
      = Ok st1 /\
    on_submit failing_env EmojiTranslator 6 "I love my cat" initial_session
      = Ok st2 /\
    history st1 = history st2.
Proof.
  apply (emoji_run_ignores_model echo_env failing_env 6 "I love my cat"
                                 initial_session); reflexivity.
Defined.

(** X14: when the model returns several generated responses, the raw
    bot text is the last of them. *)
Theorem bot_raw_last_response
        (e : env) (prompt : string) (earlier : list string) (latest : string) :
  conv_pipeline e prompt = Responded (earlier ++ [latest]) ->
  bot_raw e prompt = latest.
Proof.
  intros H. unfold bot_raw. rewrite H.
  destruct (earlier ++ [latest])%list eqn:E.
  - now destruct earlier.
  - rewrite <- E. apply last_last.
Qed.

Lemma bot_raw_last_response_witness :
  bot_raw {| conv_pipeline := fun _ => Responded ["first"; "second"; "third"];
             emojize := alias_text;
             draw := 0;
             timestamp_user := "";
             timestamp_bot := "" |}
          "User: hi" = "third".
Proof.
  apply (bot_raw_last_response _ "User: hi" ["first"; "second"] "third").
  reflexivity.
Defined.
